(** * Hotel safe: a shallow embedding of [src/safe.ts]

    The safe is a class with six private fields and one public mutator,
    [enter].  The embedding keeps the fields in a record, turns every
    method into a function from the old object to the new one, and keeps
    the JavaScript string primitives the methods call ([padEnd],
    [substring], [Number.prototype.toString], [+=], [===]) as separate
    definitions in module [JS]. *)

From Stdlib Require Import Bool Arith NArith Lia List Ascii String.
From Stdlib Require Import DecimalString.
Import ListNotations.

Local Open Scope string_scope.

(** ** The JavaScript string primitives used by the safe *)

Module JS.

(** [n.toString()] for a non-negative integer: decimal, no leading zero. *)
Definition toString (n : N) : string :=
  NilEmpty.string_of_uint (N.to_uint n).

(** The filler of [padEnd]: [fillString] repeated and cut to [k]
    characters; [cur] is what is left of the current repetition. *)
Fixpoint filler (fillString cur : string) (k : nat) : string :=
  match k with
  | O => EmptyString
  | S k' =>
      match cur with
      | String c rest => String c (filler fillString rest k')
      | EmptyString =>
          match fillString with
          | String c rest => String c (filler fillString rest k')
          | EmptyString => EmptyString
          end
      end
  end.

(** [s.padEnd(maxLength, fillString)]: a string that is already long
    enough is returned as it is, and is never shortened. *)
Definition padEnd (s : string) (maxLength : nat) (fillString : string)
  : string :=
  if (maxLength <=? String.length s)%nat then s
  else s ++ filler fillString fillString (maxLength - String.length s).

(** [s.substring(start, stop)]: the arguments are swapped when
    [start > stop] and both are clamped to the length of [s]. *)
Definition substring (s : string) (start stop : nat) : string :=
  let lo := Nat.min start stop in
  let hi := Nat.max start stop in
  String.substring lo (hi - lo) s.

End JS.

(** ** Buttons and states *)

(** [export enum Button { D0, ..., D9, LOCK, KEY, PIN }] *)
Inductive Button : Type :=
  | D0 | D1 | D2 | D3 | D4 | D5 | D6 | D7 | D8 | D9 | LOCK | KEY | PIN.

(** A TypeScript numeric enum: each member is its position, from 0. *)
Definition Button_value (b : Button) : N :=
  match b with
  | D0 => 0 | D1 => 1 | D2 => 2 | D3 => 3 | D4 => 4
  | D5 => 5 | D6 => 6 | D7 => 7 | D8 => 8 | D9 => 9
  | LOCK => 10 | KEY => 11 | PIN => 12
  end%N.

(** [a === b] on two enum members compares their numbers. *)
Definition Button_eqb (a b : Button) : bool :=
  (Button_value a =? Button_value b)%N.

(** [enum SafeState] *)
Inductive SafeState : Type :=
  | LOCKED_IDLE
  | LOCKED_ERROR
  | ENTERING_PIN
  | UNLOCKED
  | SETTING_NEW_PIN.

(** ** The object *)

(** The private fields of [class SafeImpl], in declaration order. *)
Record SafeImpl : Type := mkSafeImpl {
  locked : bool;
  display : string;
  currentPin : string;
  state : SafeState;
  enteredDigits : string;
  newPinBuffer : string
}.

(** Field assignments [this.f = v]. *)
Definition set_locked (v : bool) (this : SafeImpl) : SafeImpl :=
  mkSafeImpl v (display this) (currentPin this) (state this)
             (enteredDigits this) (newPinBuffer this).

Definition set_display (v : string) (this : SafeImpl) : SafeImpl :=
  mkSafeImpl (locked this) v (currentPin this) (state this)
             (enteredDigits this) (newPinBuffer this).

Definition set_currentPin (v : string) (this : SafeImpl) : SafeImpl :=
  mkSafeImpl (locked this) (display this) v (state this)
             (enteredDigits this) (newPinBuffer this).

Definition set_state (v : SafeState) (this : SafeImpl) : SafeImpl :=
  mkSafeImpl (locked this) (display this) (currentPin this) v
             (enteredDigits this) (newPinBuffer this).

Definition set_enteredDigits (v : string) (this : SafeImpl) : SafeImpl :=
  mkSafeImpl (locked this) (display this) (currentPin this) (state this)
             v (newPinBuffer this).

Definition set_newPinBuffer (v : string) (this : SafeImpl) : SafeImpl :=
  mkSafeImpl (locked this) (display this) (currentPin this) (state this)
             (enteredDigits this) v.

(** The field initialisers: a freshly constructed safe. *)
Definition init : SafeImpl :=
  {| locked := true;
     display := "      ";
     currentPin := "123456";
     state := LOCKED_IDLE;
     enteredDigits := "";
     newPinBuffer := "" |}.

(** ** The methods *)

(** [button >= Button.D0 && button <= Button.D9] *)
Definition isDigitButton (button : Button) : bool :=
  ((Button_value D0 <=? Button_value button)
   && (Button_value button <=? Button_value D9))%N.

(** The digit is the decimal print of the enum number. *)
Definition buttonToDigit (button : Button) : string :=
  if ((Button_value D0 <=? Button_value button)
      && (Button_value button <=? Button_value D9))%N
  then JS.toString (Button_value button)
  else "".

Definition readDisplay (this : SafeImpl) : string := display this.

Definition isLocked (this : SafeImpl) : bool := locked this.

Definition handleLockedIdle (this : SafeImpl) (button : Button) : SafeImpl :=
  if Button_eqb button KEY then
    let this := set_state ENTERING_PIN this in
    let this := set_enteredDigits "" this in
    set_display "      " this
  else if Button_eqb button LOCK then
    this
  else if isDigitButton button then
    let this := set_state LOCKED_ERROR this in
    set_display "ERROR " this
  else
    this.

Definition handleLockedError (this : SafeImpl) (button : Button) : SafeImpl :=
  if Button_eqb button KEY then
    let this := set_state ENTERING_PIN this in
    let this := set_enteredDigits "" this in
    set_display "      " this
  else
    set_display "ERROR " this.

Definition handleEnteringPin (this : SafeImpl) (button : Button) : SafeImpl :=
  if isDigitButton button then
    let digit := buttonToDigit button in
    let this := set_enteredDigits (enteredDigits this ++ digit) this in
    let this := set_display (JS.padEnd (enteredDigits this) 6 " ") this in
    if (String.length (enteredDigits this) =? 6)%nat then
      let this :=
        if (enteredDigits this =? currentPin this)%string then
          let this := set_locked false this in
          let this := set_display "OPEN  " this in
          set_state UNLOCKED this
        else
          let this := set_display "      " this in
          set_state LOCKED_IDLE this in
      set_enteredDigits "" this
    else
      this
  else if Button_eqb button KEY then
    let this := set_enteredDigits "" this in
    set_display "      " this
  else
    this.

Definition handleUnlocked (this : SafeImpl) (button : Button) : SafeImpl :=
  if Button_eqb button LOCK then
    let this := set_locked true this in
    let this := set_display "CLOSED" this in
    set_state LOCKED_IDLE this
  else if Button_eqb button PIN then
    let this := set_state SETTING_NEW_PIN this in
    let this := set_newPinBuffer "" this in
    set_display "      " this
  else
    this.

Definition handleSettingNewPin (this : SafeImpl) (button : Button)
  : SafeImpl :=
  if isDigitButton button then
    let digit := buttonToDigit button in
    let this := set_newPinBuffer (newPinBuffer this ++ digit) this in
    let this := set_display (JS.padEnd (newPinBuffer this) 6 " ") this in
    if (6 <? String.length (newPinBuffer this))%nat then
      set_newPinBuffer (JS.substring (newPinBuffer this) 0 6) this
    else
      this
  else if Button_eqb button PIN
          && (String.length (newPinBuffer this) =? 6)%nat then
    let this := set_currentPin (newPinBuffer this) this in
    let this := set_display "CODE  " this in
    let this := set_state UNLOCKED this in
    set_newPinBuffer "" this
  else
    this.

(** [enter] dispatches on the state tag; the [switch] has a case for each
    of the five tags and no statement of the class throws. *)
Definition enter (this : SafeImpl) (button : Button) : SafeImpl :=
  match state this with
  | LOCKED_IDLE => handleLockedIdle this button
  | LOCKED_ERROR => handleLockedError this button
  | ENTERING_PIN => handleEnteringPin this button
  | UNLOCKED => handleUnlocked this button
  | SETTING_NEW_PIN => handleSettingNewPin this button
  end.

(** ** Runs *)

(** A sequence of presses, applied from left to right. *)
Definition run (this : SafeImpl) (buttons : list Button) : SafeImpl :=
  fold_left enter buttons this.

(** The states a safe can be in: those some sequence of presses leads to
    from a new safe. *)
Inductive reachable : SafeImpl -> Prop :=
  | reachable_init : reachable init
  | reachable_enter (s : SafeImpl) (b : Button) :
      reachable s -> reachable (enter s b).

(** The digits a list of buttons types into a buffer. *)
Definition typed (buttons : list Button) : string :=
  fold_right (fun b acc => buttonToDigit b ++ acc) "" buttons.

(** The lock status the state tag stands for: open in [UNLOCKED] and
    while a new PIN is being set, closed in every other state. *)
Definition lockedOf (st : SafeState) : bool :=
  match st with
  | UNLOCKED | SETTING_NEW_PIN => false
  | LOCKED_IDLE | LOCKED_ERROR | ENTERING_PIN => true
  end.

Definition isDigit (b : Button) : Prop := isDigitButton b = true.

(** What holds of the fields of every safe between two calls of [enter]. *)
Record Inv (s : SafeImpl) : Prop := mkInv {
  inv_locked : locked s = lockedOf (state s);
  inv_entered : String.length (enteredDigits s) < 6;
  inv_newPin : exists ns, Forall isDigit ns /\ List.length ns <= 6
                          /\ typed ns = newPinBuffer s;
  inv_pin : exists ps, Forall isDigit ps /\ List.length ps = 6
                       /\ typed ps = currentPin s;
  inv_display : String.length (display s) = 6
                \/ String.length (display s) = 7
}.

(** The pairs of a state and a button that the transition table of the
    controller lists as no-ops: LOCK and PIN while idle or while a PIN is
    entered, a digit or KEY while unlocked, LOCK or KEY while a new PIN is
    set, and PIN on a new PIN that is not complete. *)
Definition noop_pair (s : SafeImpl) (b : Button) : bool :=
  match state s, b with
  | LOCKED_IDLE, (LOCK | PIN) => true
  | ENTERING_PIN, (LOCK | PIN) => true
  | UNLOCKED, (LOCK | PIN) => false
  | UNLOCKED, _ => true
  | SETTING_NEW_PIN, (LOCK | KEY) => true
  | SETTING_NEW_PIN, PIN => negb (String.length (newPinBuffer s) =? 6)%nat
  | _, _ => false
  end.

(** ** The display and the buffers, state by state *)

(** The character a digit button stands for: ['0'] is character 48. *)
Definition digitChar (b : Button) : ascii :=
  ascii_of_N (48 + Button_value b).

(** What the display shows between two calls of [enter], by state tag.
    The last case is the display after a digit typed on a full new-PIN
    buffer. *)
Definition display_by_state (s : SafeImpl) : Prop :=
  match state s with
  | LOCKED_IDLE => display s = "      " \/ display s = "CLOSED"
  | LOCKED_ERROR => display s = "ERROR "
  | ENTERING_PIN => display s = JS.padEnd (enteredDigits s) 6 " "
  | UNLOCKED => display s = "OPEN  " \/ display s = "CODE  "
  | SETTING_NEW_PIN =>
      display s = JS.padEnd (newPinBuffer s) 6 " "
      \/ (String.length (newPinBuffer s) = 6
          /\ exists d, isDigitButton d = true
                       /\ display s = newPinBuffer s ++ buttonToDigit d)
  end.

(** The display follows the state, and each buffer is empty outside the
    state that fills it. *)
Record Shown (s : SafeImpl) : Prop := mkShown {
  shown_display : display_by_state s;
  shown_entered : state s <> ENTERING_PIN -> enteredDigits s = "";
  shown_newPin : state s <> SETTING_NEW_PIN -> newPinBuffer s = ""
}.

(** The state diagram in the comment on [enum SafeState]: the state
    changes, each with the press that causes it. *)
Inductive documented (s : SafeImpl) : Button -> SafeState -> Prop :=
  | doc_idle_key :
      state s = LOCKED_IDLE -> documented s KEY ENTERING_PIN
  | doc_idle_digit (d : Button) :
      state s = LOCKED_IDLE -> isDigitButton d = true ->
      documented s d LOCKED_ERROR
  | doc_error_key :
      state s = LOCKED_ERROR -> documented s KEY ENTERING_PIN
  | doc_correct_pin (d : Button) :
      state s = ENTERING_PIN -> isDigitButton d = true ->
      enteredDigits s ++ buttonToDigit d = currentPin s ->
      documented s d UNLOCKED
  | doc_wrong_pin (d : Button) :
      state s = ENTERING_PIN -> isDigitButton d = true ->
      String.length (enteredDigits s ++ buttonToDigit d) = 6 ->
      enteredDigits s ++ buttonToDigit d <> currentPin s ->
      documented s d LOCKED_IDLE
  | doc_lock :
      state s = UNLOCKED -> documented s LOCK LOCKED_IDLE
  | doc_pin :
      state s = UNLOCKED -> documented s PIN SETTING_NEW_PIN
  | doc_commit :
      state s = SETTING_NEW_PIN -> String.length (newPinBuffer s) = 6 ->
      documented s PIN UNLOCKED.

(** ** States of the user stories *)

(** Story 1, one digit short of the factory PIN. *)
Definition entering5 : SafeImpl := run init [KEY; D1; D2; D3; D4; D5].

(** Story 4, one digit short of a wrong PIN. *)
Definition wrong5 : SafeImpl := run init [KEY; D1; D2; D4; D3; D5].

(** Story 1, unlocked. *)
Definition opened : SafeImpl := run init [KEY; D1; D2; D3; D4; D5; D6].

(** Story 5, one digit short of the new PIN 777333. *)
Definition setting5 : SafeImpl :=
  run opened [PIN; D7; D7; D7; D3; D3].

(** Story 5, the new PIN 777333 typed and not yet confirmed. *)
Definition setting6 : SafeImpl :=
  run opened [PIN; D7; D7; D7; D3; D3; D3].

(** Story 3, a digit pressed without KEY. *)
Definition failed : SafeImpl := run init [D1].

(** Unfolds a call of [enter] down to the field assignments. *)
Ltac unfold_enter :=
  unfold enter, handleLockedIdle, handleLockedError, handleEnteringPin,
    handleUnlocked, handleSettingNewPin, readDisplay, isLocked,
    set_locked, set_display, set_currentPin, set_state,
    set_enteredDigits, set_newPinBuffer;
  cbn [locked display currentPin state enteredDigits newPinBuffer].

(** Closes the side goals of an invariant case: a state tag that cannot
    be the one asked for, or a fact at hand. *)
Ltac close_case :=
  auto; try discriminate;
  try (let H := fresh in intros H; exfalso; apply H; reflexivity);
  try (let H := fresh in intros H; auto; discriminate).

(** ** The scenarios of the user stories, run *)

Example run_unlock :
  run init [KEY; D1; D2; D3; D4; D5; D6]
  = {| locked := false; display := "OPEN  "; currentPin := "123456";
       state := UNLOCKED; enteredDigits := ""; newPinBuffer := "" |}.
Proof. reflexivity. Qed.

(** Story 1: the display after KEY and after each of the first five
    digits. *)
Example run_unlock_displays :
  map (fun n => readDisplay (run init (firstn n [KEY; D1; D2; D3; D4; D5])))
      [1; 2; 3; 4; 5; 6]
  = ["      "; "1     "; "12    "; "123   "; "1234  "; "12345 "].
Proof. reflexivity. Qed.

(** Story 2: LOCK on the open safe. *)
Example run_lock :
  readDisplay (enter opened LOCK) = "CLOSED"
  /\ isLocked (enter opened LOCK) = true.
Proof. split; reflexivity. Qed.

(** Story 4: a wrong PIN. *)
Example run_wrong_pin :
  readDisplay (enter wrong5 D6) = "      "
  /\ isLocked (enter wrong5 D6) = true.
Proof. split; reflexivity. Qed.

(** A seventh digit while a new PIN is set. *)
Example run_seven_digits :
  readDisplay
    (run init [KEY; D1; D2; D3; D4; D5; D6; PIN; D1; D2; D3; D4; D5; D6; D7])
  = "1234567".
Proof. reflexivity. Qed.

(** ** Strings *)

Section Strings.

Lemma length_append (a b : string) :
  String.length (a ++ b) = String.length a + String.length b.
Proof. induction a as [|c a IH]; simpl; [reflexivity | now rewrite IH]. Qed.

Lemma append_empty_r (a : string) : a ++ "" = a.
Proof. induction a as [|c a IH]; simpl; [reflexivity | now rewrite IH]. Qed.

Lemma append_assoc (a b c : string) : (a ++ b) ++ c = a ++ (b ++ c).
Proof. induction a as [|x a IH]; simpl; [reflexivity | now rewrite IH]. Qed.

Lemma append_inj_l (a a' b b' : string) :
  String.length a = String.length a' -> a ++ b = a' ++ b' -> a = a' /\ b = b'.
Proof.
  revert a'. induction a as [|x a IH]; intros [|x' a'] Hlen Heq;
    simpl in *; try discriminate.
  - now split.
  - injection Heq as -> Heq. injection Hlen as Hlen.
    destruct (IH a' Hlen Heq) as [-> ->]. now split.
Qed.

(** Cutting [a ++ b] after as many characters as [a] has gives [a]. *)
Lemma substring_append (a b : string) :
  String.substring 0 (String.length a) (a ++ b) = a.
Proof.
  induction a as [|x a IH]; simpl.
  - now destruct b.
  - now rewrite IH.
Qed.

Lemma filler_length (f cur : string) (k : nat) :
  f <> "" -> String.length (JS.filler f cur k) = k.
Proof.
  intros Hf. revert cur.
  induction k as [|k IH]; intros cur; simpl; [reflexivity|].
  destruct cur as [|c rest]; simpl.
  - destruct f as [|c rest]; [contradiction | simpl; now rewrite IH].
  - now rewrite IH.
Qed.

(** [padEnd] never shortens: the result has [maxLength] characters, or
    as many as the string had when that is more. *)
Lemma padEnd_length (s : string) (n : nat) :
  String.length (JS.padEnd s n " ") = Nat.max n (String.length s).
Proof.
  unfold JS.padEnd. destruct (Nat.leb_spec n (String.length s)).
  - lia.
  - rewrite length_append, filler_length by discriminate. lia.
Qed.

End Strings.

(** ** Buttons *)

Section Buttons.

Lemma isDigitButton_table (b : Button) :
  isDigitButton b
  = match b with LOCK | KEY | PIN => false | _ => true end.
Proof. now destruct b. Qed.

Lemma buttonToDigit_table (b : Button) :
  buttonToDigit b
  = match b with
    | D0 => "0" | D1 => "1" | D2 => "2" | D3 => "3" | D4 => "4"
    | D5 => "5" | D6 => "6" | D7 => "7" | D8 => "8" | D9 => "9"
    | LOCK | KEY | PIN => ""
    end.
Proof. now destruct b. Qed.

Lemma Button_eqb_eq (a b : Button) : Button_eqb a b = true <-> a = b.
Proof. destruct a, b; split; intros H; try reflexivity; discriminate H. Qed.

Lemma Button_eqb_spec (a b : Button) : reflect (a = b) (Button_eqb a b).
Proof. apply iff_reflect. symmetry. apply Button_eqb_eq. Qed.

Lemma buttonToDigit_length (b : Button) :
  isDigitButton b = true -> String.length (buttonToDigit b) = 1.
Proof. destruct b; intros H; try discriminate H; reflexivity. Qed.

(** Two digit buttons that type the same character are the same button. *)
Lemma buttonToDigit_inj (a b : Button) :
  isDigitButton a = true -> isDigitButton b = true ->
  buttonToDigit a = buttonToDigit b -> a = b.
Proof.
  destruct a; intros Ha; try discriminate Ha;
    destruct b; intros Hb; try discriminate Hb;
    intros H; try reflexivity; discriminate H.
Qed.

Lemma typed_length (ds : list Button) :
  Forall isDigit ds -> String.length (typed ds) = List.length ds.
Proof.
  induction 1 as [|d ds Hd _ IH]; simpl; [reflexivity|].
  now rewrite length_append, buttonToDigit_length, IH.
Qed.

Lemma typed_app (xs ys : list Button) :
  typed (xs ++ ys)%list = typed xs ++ typed ys.
Proof.
  induction xs as [|x xs IH]; simpl; [reflexivity|].
  now rewrite IH, append_assoc.
Qed.

Lemma typed_snoc (xs : list Button) (d : Button) :
  typed (xs ++ [d])%list = typed xs ++ buttonToDigit d.
Proof. rewrite typed_app. simpl. now rewrite append_empty_r. Qed.

(** Different digit sequences type different strings. *)
Lemma typed_inj (xs ys : list Button) :
  Forall isDigit xs -> Forall isDigit ys -> typed xs = typed ys -> xs = ys.
Proof.
  intros Hxs. revert ys.
  induction Hxs as [|x xs Hx Hxs IH]; intros ys Hys Heq.
  - destruct Hys as [|y ys Hy _]; [reflexivity|].
    simpl in Heq. apply (f_equal String.length) in Heq.
    rewrite length_append, (buttonToDigit_length y Hy) in Heq.
    discriminate Heq.
  - destruct Hys as [|y ys Hy Hys].
    + simpl in Heq. apply (f_equal String.length) in Heq.
      rewrite length_append, (buttonToDigit_length x Hx) in Heq.
      discriminate Heq.
    + simpl in Heq. apply append_inj_l in Heq.
      * destruct Heq as [Hd Ht].
        f_equal; [now apply buttonToDigit_inj | now apply IH].
      * now rewrite !buttonToDigit_length.
Qed.

End Buttons.

(** ** Single presses *)

Section Steps.

Variable s : SafeImpl.

(** A digit in [ENTERING_PIN] that does not complete the entry. *)
Lemma enter_digit_partial (d : Button) :
  state s = ENTERING_PIN -> isDigitButton d = true ->
  String.length (enteredDigits s) + 1 <> 6 ->
  enter s d
  = set_display (JS.padEnd (enteredDigits s ++ buttonToDigit d) 6 " ")
      (set_enteredDigits (enteredDigits s ++ buttonToDigit d) s).
Proof.
  intros Hst Hd Hlen. unfold_enter. rewrite Hst, Hd.
  rewrite length_append, (buttonToDigit_length d Hd).
  destruct (Nat.eqb_spec (String.length (enteredDigits s) + 1) 6);
    [contradiction | reflexivity].
Qed.

(** The digit that completes the entry. *)
Lemma enter_digit_last (d : Button) :
  state s = ENTERING_PIN -> isDigitButton d = true ->
  String.length (enteredDigits s) + 1 = 6 ->
  enter s d
  = if (enteredDigits s ++ buttonToDigit d =? currentPin s)%string
    then mkSafeImpl false "OPEN  " (currentPin s) UNLOCKED
                    "" (newPinBuffer s)
    else mkSafeImpl (locked s) "      " (currentPin s) LOCKED_IDLE
                    "" (newPinBuffer s).
Proof.
  intros Hst Hd Hlen. unfold_enter. rewrite Hst, Hd.
  rewrite length_append, (buttonToDigit_length d Hd), Hlen.
  cbn [Nat.eqb].
  now destruct (enteredDigits s ++ buttonToDigit d =? currentPin s)%string.
Qed.

(** A digit in [SETTING_NEW_PIN] while the buffer has room. *)
Lemma enter_newPin_digit (d : Button) :
  state s = SETTING_NEW_PIN -> isDigitButton d = true ->
  String.length (newPinBuffer s) < 6 ->
  enter s d
  = set_display (JS.padEnd (newPinBuffer s ++ buttonToDigit d) 6 " ")
      (set_newPinBuffer (newPinBuffer s ++ buttonToDigit d) s).
Proof.
  intros Hst Hd Hlen. unfold_enter. rewrite Hst, Hd.
  rewrite length_append, (buttonToDigit_length d Hd).
  destruct (Nat.ltb_spec 6 (String.length (newPinBuffer s) + 1));
    [lia | reflexivity].
Qed.

(** A digit in [SETTING_NEW_PIN] on a full buffer: the buffer keeps its
    six digits, the display is set from the seven. *)
Lemma enter_newPin_overflow (d : Button) :
  state s = SETTING_NEW_PIN -> isDigitButton d = true ->
  String.length (newPinBuffer s) = 6 ->
  enter s d = set_display (newPinBuffer s ++ buttonToDigit d) s.
Proof.
  intros Hst Hd Hlen. unfold_enter. rewrite Hst, Hd.
  rewrite length_append, (buttonToDigit_length d Hd), Hlen.
  cbn [Nat.ltb Nat.leb Nat.add].
  unfold JS.substring. cbn [Nat.min Nat.max Nat.sub].
  rewrite <- Hlen at 2. rewrite substring_append.
  unfold JS.padEnd.
  rewrite length_append, (buttonToDigit_length d Hd), Hlen.
  cbn [Nat.leb Nat.add]. destruct s; reflexivity.
Qed.

Lemma enter_newPin_commit :
  state s = SETTING_NEW_PIN -> String.length (newPinBuffer s) = 6 ->
  enter s PIN
  = mkSafeImpl (locked s) "CODE  " (newPinBuffer s) UNLOCKED
               (enteredDigits s) "".
Proof.
  intros Hst Hlen. unfold_enter. rewrite Hst, Hlen. reflexivity.
Qed.

(** Every press the transition table lists as a no-op returns the
    object as it was. *)
Lemma enter_noop (b : Button) : noop_pair s b = true -> enter s b = s.
Proof.
  unfold noop_pair. unfold_enter.
  destruct (state s), b; intros H; try discriminate H;
    try (destruct s; reflexivity).
  apply negb_true_iff in H. cbn. rewrite H. reflexivity.
Qed.

End Steps.

(** ** The invariant *)

Section Invariant.

Lemma Inv_init : Inv init.
Proof.
  constructor; cbn.
  - reflexivity.
  - lia.
  - exists []. repeat split; [constructor | cbn; lia].
  - exists [D1; D2; D3; D4; D5; D6].
    repeat split. repeat constructor.
  - now left.
Qed.

Lemma Inv_LockedIdle (s : SafeImpl) (b : Button) :
  Inv s -> state s = LOCKED_IDLE -> Inv (handleLockedIdle s b).
Proof.
  intros [Hl He Hn Hp Hd] Hst. unfold handleLockedIdle.
  destruct (Button_eqb b KEY); [|destruct (Button_eqb b LOCK);
    [|destruct (isDigitButton b)]];
    constructor; cbn; rewrite ?Hst in *; auto; cbn; lia.
Qed.

Lemma Inv_LockedError (s : SafeImpl) (b : Button) :
  Inv s -> state s = LOCKED_ERROR -> Inv (handleLockedError s b).
Proof.
  intros [Hl He Hn Hp Hd] Hst. unfold handleLockedError.
  destruct (Button_eqb b KEY);
    constructor; cbn; rewrite ?Hst in *; auto; cbn; lia.
Qed.

Lemma Inv_Unlocked (s : SafeImpl) (b : Button) :
  Inv s -> state s = UNLOCKED -> Inv (handleUnlocked s b).
Proof.
  intros [Hl He Hn Hp Hd] Hst. unfold handleUnlocked.
  destruct (Button_eqb b LOCK); [|destruct (Button_eqb b PIN)];
    constructor; cbn; rewrite ?Hst in *; auto.
  exists []. repeat split; [constructor | cbn; lia].
Qed.

Lemma Inv_EnteringPin (s : SafeImpl) (b : Button) :
  Inv s -> state s = ENTERING_PIN -> Inv (handleEnteringPin s b).
Proof.
  intros [Hl He Hn Hp Hd] Hst.
  assert (Henter : handleEnteringPin s b = enter s b)
    by (unfold enter; now rewrite Hst).
  destruct (isDigitButton b) eqn:Hb.
  - rewrite Henter.
    destruct (Nat.eq_dec (String.length (enteredDigits s) + 1) 6) as [E|E].
    + rewrite (enter_digit_last s b Hst Hb E).
      rewrite Hst in Hl.
      destruct (_ =? _)%string; constructor; cbn; auto; lia.
    + rewrite (enter_digit_partial s b Hst Hb E).
      constructor; cbn; auto.
      * rewrite length_append, (buttonToDigit_length b Hb). lia.
      * left. rewrite padEnd_length, length_append,
          (buttonToDigit_length b Hb). lia.
  - unfold handleEnteringPin. rewrite Hb.
    destruct (Button_eqb b KEY); constructor; cbn; auto; lia.
Qed.

Lemma Inv_SettingNewPin (s : SafeImpl) (b : Button) :
  Inv s -> state s = SETTING_NEW_PIN -> Inv (handleSettingNewPin s b).
Proof.
  intros [Hl He Hn Hp Hd] Hst.
  assert (Henter : handleSettingNewPin s b = enter s b)
    by (unfold enter; now rewrite Hst).
  destruct Hn as (ns & Hns & Hlen & Hty).
  assert (Hbuf : String.length (newPinBuffer s) = List.length ns)
    by (rewrite <- Hty; now apply typed_length).
  destruct (isDigitButton b) eqn:Hb.
  - rewrite Henter.
    destruct (Nat.eq_dec (List.length ns) 6) as [E|E].
    + rewrite (enter_newPin_overflow s b Hst Hb) by lia.
      constructor; cbn; auto.
      * exists ns. auto.
      * right. rewrite length_append, (buttonToDigit_length b Hb). lia.
    + rewrite (enter_newPin_digit s b Hst Hb) by lia.
      constructor; cbn; auto.
      * exists (ns ++ [b])%list. repeat split.
        -- apply Forall_app. split; [assumption | now repeat constructor].
        -- rewrite length_app. cbn. lia.
        -- now rewrite typed_snoc, Hty.
      * left. rewrite padEnd_length, length_append,
          (buttonToDigit_length b Hb). lia.
  - unfold handleSettingNewPin. rewrite Hb.
    destruct (Button_eqb b PIN); cbn [andb];
      [destruct (Nat.eqb_spec (String.length (newPinBuffer s)) 6)|];
      constructor; cbn; auto.
    + now rewrite Hl, Hst.
    + exists []. repeat split; [constructor | cbn; lia].
    + exists ns. repeat split; [assumption | lia | assumption].
    + exists ns. auto.
    + exists ns. auto.
Qed.

Lemma Inv_enter (s : SafeImpl) (b : Button) : Inv s -> Inv (enter s b).
Proof.
  intros H. unfold enter. destruct (state s) eqn:Hst.
  - now apply Inv_LockedIdle.
  - now apply Inv_LockedError.
  - now apply Inv_EnteringPin.
  - now apply Inv_Unlocked.
  - now apply Inv_SettingNewPin.
Qed.

Lemma reachable_Inv (s : SafeImpl) : reachable s -> Inv s.
Proof.
  induction 1 as [|s b _ IH]; [apply Inv_init | now apply Inv_enter].
Qed.

Lemma reachable_run (s : SafeImpl) (bs : list Button) :
  reachable s -> reachable (run s bs).
Proof.
  revert s. induction bs as [|b bs IH]; intros s Hs; cbn; [assumption|].
  apply IH. now constructor.
Qed.

Lemma run_app (s : SafeImpl) (xs ys : list Button) :
  run s (xs ++ ys)%list = run (run s xs) ys.
Proof. apply fold_left_app. Qed.

End Invariant.

(** ** Sequences of digits *)

Section Runs.

(** Digits typed into the entry buffer while it stays short of six. *)
Lemma run_entering (ds : list Button) :
  forall s : SafeImpl,
    state s = ENTERING_PIN -> Forall isDigit ds ->
    String.length (enteredDigits s) + List.length ds < 6 ->
    state (run s ds) = ENTERING_PIN
    /\ enteredDigits (run s ds) = enteredDigits s ++ typed ds
    /\ currentPin (run s ds) = currentPin s
    /\ locked (run s ds) = locked s
    /\ newPinBuffer (run s ds) = newPinBuffer s.
Proof.
  induction ds as [|d ds IH]; intros s Hst Hds Hlen; cbn in *.
  - now rewrite append_empty_r.
  - inversion Hds as [|? ? Hd Hds']; subst.
    rewrite (enter_digit_partial s d Hst Hd) by lia.
    match goal with |- context [fold_left enter ds ?t] =>
      destruct (IH t) as (H1 & H2 & H3 & H4 & H5) end; cbn; auto.
    + rewrite length_append, (buttonToDigit_length d Hd). lia.
    + fold (run (set_display
              (JS.padEnd (enteredDigits s ++ buttonToDigit d) 6 " ")
              (set_enteredDigits (enteredDigits s ++ buttonToDigit d) s))
              ds) in *.
      cbn in *. rewrite H2, append_assoc. auto.
Qed.

(** Digits typed into the new-PIN buffer while it has room. *)
Lemma run_setting (ds : list Button) :
  forall s : SafeImpl,
    state s = SETTING_NEW_PIN -> Forall isDigit ds ->
    String.length (newPinBuffer s) + List.length ds <= 6 ->
    state (run s ds) = SETTING_NEW_PIN
    /\ newPinBuffer (run s ds) = newPinBuffer s ++ typed ds
    /\ currentPin (run s ds) = currentPin s
    /\ locked (run s ds) = locked s
    /\ enteredDigits (run s ds) = enteredDigits s.
Proof.
  induction ds as [|d ds IH]; intros s Hst Hds Hlen; cbn in *.
  - now rewrite append_empty_r.
  - inversion Hds as [|? ? Hd Hds']; subst.
    rewrite (enter_newPin_digit s d Hst Hd) by lia.
    match goal with |- context [fold_left enter ds ?t] =>
      destruct (IH t) as (H1 & H2 & H3 & H4 & H5) end; cbn; auto.
    + rewrite length_append, (buttonToDigit_length d Hd). lia.
    + fold (run (set_display
              (JS.padEnd (newPinBuffer s ++ buttonToDigit d) 6 " ")
              (set_newPinBuffer (newPinBuffer s ++ buttonToDigit d) s))
              ds) in *.
      cbn in *. rewrite H2, append_assoc. auto.
Qed.

(** KEY and six digits on a locked, idle safe: one whole attempt. *)
Lemma run_attempt (s : SafeImpl) (ds : list Button) :
  state s = LOCKED_IDLE -> Forall isDigit ds -> List.length ds = 6 ->
  run s (KEY :: ds)
  = if (typed ds =? currentPin s)%string
    then mkSafeImpl false "OPEN  " (currentPin s) UNLOCKED
                    "" (newPinBuffer s)
    else mkSafeImpl (locked s) "      " (currentPin s) LOCKED_IDLE
                    "" (newPinBuffer s).
Proof.
  intros Hst Hds Hlen.
  destruct (exists_last (l := ds)) as (ds' & d & ->);
    [intros ->; discriminate Hlen|].
  apply Forall_app in Hds. destruct Hds as [Hds' Hd].
  inversion Hd as [|? ? Hd' _]; subst.
  rewrite length_app in Hlen. cbn in Hlen.
  change (KEY :: ds' ++ [d])%list with ([KEY] ++ ds' ++ [d])%list.
  rewrite !run_app.
  assert (Hs0 : run s [KEY]
                = mkSafeImpl (locked s) "      " (currentPin s)
                    ENTERING_PIN "" (newPinBuffer s)).
  { cbn. unfold_enter. now rewrite Hst. }
  rewrite Hs0. clear Hs0.
  set (s0 := mkSafeImpl _ _ _ _ _ _).
  destruct (run_entering ds' s0) as (H1 & H2 & H3 & H4 & H5);
    [reflexivity | assumption | cbn; lia |].
  cbn [run fold_left] in *.
  rewrite enter_digit_last; auto.
  - rewrite H2, H3, H4, H5, typed_snoc. reflexivity.
  - rewrite H2. subst s0. cbn. rewrite (typed_length ds' Hds'). lia.
Qed.

(** PIN, six digits, PIN, LOCK on an unlocked safe: change the PIN and
    close. *)
Lemma run_change (s : SafeImpl) (C : list Button) :
  state s = UNLOCKED -> Forall isDigit C -> List.length C = 6 ->
  run s ([PIN] ++ C ++ [PIN; LOCK])
  = mkSafeImpl true "CLOSED" (typed C) LOCKED_IDLE (enteredDigits s) "".
Proof.
  intros Hst HC Hlen. rewrite !run_app.
  assert (Hs0 : run s [PIN]
                = mkSafeImpl (locked s) "      " (currentPin s)
                    SETTING_NEW_PIN (enteredDigits s) "").
  { cbn. unfold_enter. now rewrite Hst. }
  rewrite Hs0. clear Hs0.
  set (s0 := mkSafeImpl _ _ _ _ _ _).
  destruct (run_setting C s0) as (H1 & H2 & H3 & H4 & H5);
    [reflexivity | assumption | cbn; lia |].
  cbn [run fold_left] in *.
  rewrite (enter_newPin_commit _ H1)
    by (rewrite H2; subst s0; cbn; now rewrite typed_length).
  unfold_enter. now rewrite H2, H5.
Qed.

End Runs.

(** ** Properties of the controller *)

Section Properties.

(** In every reachable state the display has six characters, or seven
    after a digit was typed on a full new-PIN buffer. *)
Lemma display_length_reachable (s : SafeImpl) :
  reachable s ->
  String.length (readDisplay s) = 6 \/ String.length (readDisplay s) = 7.
Proof. intros H. exact (inv_display s (reachable_Inv s H)). Qed.

(** C1 (the display has exactly six characters in every reachable state)
    fails on the code: after unlocking with the factory PIN and pressing
    PIN, a seventh digit typed into the new-PIN buffer is shown before
    the buffer is cut back to six, so [readDisplay] returns the seven
    characters "1234567". *)
Theorem C1_display_seven_characters :
  let s := run init [KEY; D1; D2; D3; D4; D5; D6;
                     PIN; D1; D2; D3; D4; D5; D6; D7] in
  reachable s
  /\ readDisplay s = "1234567"
  /\ String.length (readDisplay s) = 7
  /\ newPinBuffer s = "123456".
Proof.
  cbv zeta. split; [apply reachable_run, reachable_init|].
  repeat split.
Qed.

(** C2: in [ENTERING_PIN], the digit that brings the entry buffer to six
    characters decides the attempt in the same call.  If the six
    characters equal the current PIN the safe is [UNLOCKED], shows
    "OPEN  " and is not locked; otherwise it is [LOCKED_IDLE], shows six
    spaces and is locked.  The buffer is empty afterwards in both
    cases. *)
Theorem C2_sixth_digit_decides (s : SafeImpl) (b : Button) :
  reachable s ->
  state s = ENTERING_PIN ->
  isDigitButton b = true ->
  String.length (enteredDigits s ++ buttonToDigit b) = 6 ->
  (enteredDigits s ++ buttonToDigit b = currentPin s ->
     state (enter s b) = UNLOCKED
     /\ readDisplay (enter s b) = "OPEN  "
     /\ isLocked (enter s b) = false
     /\ enteredDigits (enter s b) = "")
  /\ (enteredDigits s ++ buttonToDigit b <> currentPin s ->
        state (enter s b) = LOCKED_IDLE
        /\ readDisplay (enter s b) = "      "
        /\ isLocked (enter s b) = true
        /\ enteredDigits (enter s b) = "").
Proof.
  intros Hr Hst Hb Hlen.
  pose proof (inv_locked s (reachable_Inv s Hr)) as Hl.
  rewrite Hst in Hl. cbn in Hl.
  rewrite length_append, (buttonToDigit_length b Hb) in Hlen.
  rewrite (enter_digit_last s b Hst Hb Hlen).
  destruct (String.eqb_spec (enteredDigits s ++ buttonToDigit b)
              (currentPin s)) as [E|E];
    split; intros E'; try contradiction; cbn; auto.
Qed.

(** C3: in every reachable state [isLocked] is [false] exactly when the
    state tag is [UNLOCKED] or [SETTING_NEW_PIN], and [true] exactly in
    the three other states: the stored flag agrees with the tag. *)
Theorem C3_locked_flag_follows_state (s : SafeImpl) :
  reachable s ->
  (isLocked s = false <-> state s = UNLOCKED \/ state s = SETTING_NEW_PIN)
  /\ (isLocked s = true <->
      state s = LOCKED_IDLE \/ state s = LOCKED_ERROR
      \/ state s = ENTERING_PIN).
Proof.
  intros Hr. pose proof (inv_locked s (reachable_Inv s Hr)) as Hl.
  unfold isLocked. rewrite Hl.
  destruct (state s); cbn; split; split; intros H;
    try reflexivity; try discriminate H; auto;
    repeat (destruct H as [H|H]; try discriminate H).
Qed.

(** C4, as stated, fails: the sixth digit typed while a new PIN is set
    brings the new-PIN buffer to six characters, and the call that does
    so neither commits nor rejects them: the state stays
    [SETTING_NEW_PIN], the PIN is the old one and the buffer is left at
    six characters for a later press. *)
Lemma C4_new_pin_left_pending :
  let s := run init [KEY; D1; D2; D3; D4; D5; D6;
                     PIN; D7; D7; D7; D3; D3] in
  let s' := enter s D3 in
  reachable s
  /\ String.length (newPinBuffer s) = 5
  /\ String.length (newPinBuffer s') = 6
  /\ newPinBuffer s' = "777333"
  /\ state s' = SETTING_NEW_PIN
  /\ currentPin s' = "123456".
Proof.
  cbv zeta. split; [apply reachable_run, reachable_init|].
  repeat split.
Qed.

(** C4, amended: in every reachable state, and so after every call of
    [enter], the entry buffer has fewer than six characters and the
    new-PIN buffer at most six.  A digit that brings the entry buffer to
    six is decided by the same call, which empties the buffer and leaves
    [ENTERING_PIN].  A digit that brings the new-PIN buffer to six is not
    decided by that call: the six characters stay in the buffer, the
    state stays [SETTING_NEW_PIN] and the PIN and the lock are unchanged.
    A new-PIN buffer of six characters is committed by PIN and kept as it
    is, pending, by every other button. *)
Theorem C4_buffers_bounded_and_decided (s : SafeImpl) (b : Button) :
  reachable s ->
  String.length (enteredDigits s) < 6
  /\ String.length (newPinBuffer s) <= 6
  /\ String.length (enteredDigits (enter s b)) < 6
  /\ String.length (newPinBuffer (enter s b)) <= 6
  /\ (state s = ENTERING_PIN -> isDigitButton b = true ->
      String.length (enteredDigits s ++ buttonToDigit b) = 6 ->
      enteredDigits (enter s b) = ""
      /\ state (enter s b) <> ENTERING_PIN)
  /\ (state s = SETTING_NEW_PIN -> isDigitButton b = true ->
      String.length (newPinBuffer s ++ buttonToDigit b) = 6 ->
      newPinBuffer (enter s b) = newPinBuffer s ++ buttonToDigit b
      /\ String.length (newPinBuffer (enter s b)) = 6
      /\ state (enter s b) = SETTING_NEW_PIN
      /\ currentPin (enter s b) = currentPin s
      /\ isLocked (enter s b) = isLocked s)
  /\ (state s = SETTING_NEW_PIN ->
      String.length (newPinBuffer s) = 6 ->
      (b = PIN ->
         currentPin (enter s b) = newPinBuffer s
         /\ newPinBuffer (enter s b) = ""
         /\ state (enter s b) = UNLOCKED)
      /\ (b <> PIN ->
            newPinBuffer (enter s b) = newPinBuffer s
            /\ currentPin (enter s b) = currentPin s
            /\ state (enter s b) = SETTING_NEW_PIN)).
Proof.
  intros Hr.
  assert (Hbuf : forall t, Inv t ->
            String.length (enteredDigits t) < 6
            /\ String.length (newPinBuffer t) <= 6).
  { intros t [_ He (ns & Hns & Hlen & Hty) _ _]. split; [assumption|].
    rewrite <- Hty, (typed_length ns Hns). assumption. }
  pose proof (reachable_Inv s Hr) as Hi.
  destruct (Hbuf s Hi) as [He Hn].
  destruct (Hbuf (enter s b) (Inv_enter s b Hi)) as [He' Hn'].
  repeat (split; [assumption|]). split; [|split].
  - intros Hst Hb Hlen.
    rewrite length_append, (buttonToDigit_length b Hb) in Hlen.
    rewrite (enter_digit_last s b Hst Hb Hlen).
    destruct (_ =? _)%string; cbn; split; auto; discriminate.
  - intros Hst Hb Hlen.
    assert (Hroom : String.length (newPinBuffer s) < 6)
      by (rewrite length_append, (buttonToDigit_length b Hb) in Hlen; lia).
    rewrite (enter_newPin_digit s b Hst Hb Hroom). cbn. auto.
  - intros Hst Hlen. split.
    + intros ->. rewrite (enter_newPin_commit s Hst Hlen). cbn. auto.
    + intros Hb. destruct (isDigitButton b) eqn:Hd.
      * rewrite (enter_newPin_overflow s b Hst Hd Hlen). cbn. auto.
      * assert (E : enter s b = s).
        { apply enter_noop. unfold noop_pair. rewrite Hst.
          destruct b; try discriminate Hd; try reflexivity.
          now contradiction Hb. }
        rewrite E. auto.
Qed.

(** C5, as stated, fails when the new PIN is the previous one: from the
    unlocked safe with the factory PIN, setting 123456 again and locking,
    KEY and the six digits of the previous PIN open the safe. *)
Lemma C5_same_pin_reopens :
  let C := [D1; D2; D3; D4; D5; D6] in
  let s := run init (KEY :: C) in
  let s1 := run s ([PIN] ++ C ++ [PIN; LOCK]) in
  reachable s
  /\ state s = UNLOCKED
  /\ typed C = currentPin s
  /\ isLocked (run s1 (KEY :: C)) = false.
Proof.
  cbv zeta. split; [apply reachable_run, reachable_init|].
  repeat split.
Qed.

(** C5, amended: from a reachable [UNLOCKED] state whose PIN is typed by
    the digits [Old], and for every sequence [C] of six digits: after
    PIN, the digits of [C], PIN and LOCK, pressing KEY and the digits of
    [C] ends unlocked; and when [C] is not [Old], pressing KEY and the
    digits of [Old] ends locked. *)
Theorem C5_change_pin_round_trip (s : SafeImpl) (C Old : list Button) :
  reachable s ->
  state s = UNLOCKED ->
  Forall isDigit C -> List.length C = 6 ->
  Forall isDigit Old -> typed Old = currentPin s ->
  isLocked (run (run s ([PIN] ++ C ++ [PIN; LOCK])) (KEY :: C)) = false
  /\ (C <> Old ->
      isLocked (run (run s ([PIN] ++ C ++ [PIN; LOCK])) (KEY :: Old))
      = true).
Proof.
  intros Hr Hst HC HlenC HOld Hty.
  assert (HlenOld : List.length Old = 6).
  { destruct (inv_pin s (reachable_Inv s Hr)) as (ps & Hps & Hlen & Hp).
    rewrite <- (typed_inj ps Old Hps HOld); [assumption | congruence]. }
  rewrite (run_change s C Hst HC HlenC).
  rewrite !run_attempt by (cbn; auto). cbn [currentPin].
  rewrite String.eqb_refl. split; [reflexivity|].
  intros Hne.
  destruct (String.eqb_spec (typed Old) (typed C)) as [E|E].
  - exfalso. apply Hne. symmetry. now apply typed_inj.
  - reflexivity.
Qed.

(** The PIN of a reachable state can always be typed: it is the print of
    six digit buttons. *)
Lemma currentPin_typed (s : SafeImpl) :
  reachable s ->
  exists Old, Forall isDigit Old /\ List.length Old = 6
              /\ typed Old = currentPin s.
Proof. intros H. exact (inv_pin s (reachable_Inv s H)). Qed.

(** C6: [enter] is defined on every state and every button, and a press
    the transition table lists as a no-op returns the safe as it was, so
    that state, display and lock flag are unchanged. *)
Theorem C6_enter_total_no_ops (s : SafeImpl) (b : Button) :
  (exists s', enter s b = s')
  /\ (noop_pair s b = true ->
      enter s b = s
      /\ state (enter s b) = state s
      /\ readDisplay (enter s b) = readDisplay s
      /\ isLocked (enter s b) = isLocked s).
Proof.
  split; [now exists (enter s b)|].
  intros H. now rewrite (enter_noop s b H).
Qed.

(** C7: a digit in [LOCKED_IDLE] leads to [LOCKED_ERROR] showing
    "ERROR "; in [LOCKED_ERROR] every button but KEY stays there with
    "ERROR "; KEY in [LOCKED_ERROR] leads to [ENTERING_PIN] with six
    spaces, and the safe is still locked. *)
Theorem C7_error_path (s : SafeImpl) (b : Button) :
  reachable s ->
  (state s = LOCKED_IDLE -> isDigitButton b = true ->
     state (enter s b) = LOCKED_ERROR
     /\ readDisplay (enter s b) = "ERROR ")
  /\ (state s = LOCKED_ERROR -> b <> KEY ->
        state (enter s b) = LOCKED_ERROR
        /\ readDisplay (enter s b) = "ERROR ")
  /\ (state s = LOCKED_ERROR ->
        state (enter s KEY) = ENTERING_PIN
        /\ readDisplay (enter s KEY) = "      "
        /\ isLocked (enter s KEY) = true).
Proof.
  intros Hr. pose proof (inv_locked s (reachable_Inv s Hr)) as Hl.
  split; [|split].
  - intros Hst Hb. unfold_enter. rewrite Hst.
    destruct b; try discriminate Hb; cbn; auto.
  - intros Hst Hb. unfold_enter. rewrite Hst.
    destruct b; try contradiction; cbn; auto.
  - intros Hst. unfold_enter. rewrite Hst in *. cbn in *. auto.
Qed.

(** C8: in [SETTING_NEW_PIN], PIN on a buffer of exactly six characters
    commits: the buffer becomes the PIN, the display shows "CODE  ", the
    state is [UNLOCKED] and the buffer is emptied.  PIN on a buffer of
    any other length, so on every shorter one, changes nothing. *)
Theorem C8_pin_commits_on_six (s : SafeImpl) :
  state s = SETTING_NEW_PIN ->
  (String.length (newPinBuffer s) = 6 ->
     currentPin (enter s PIN) = newPinBuffer s
     /\ readDisplay (enter s PIN) = "CODE  "
     /\ state (enter s PIN) = UNLOCKED
     /\ newPinBuffer (enter s PIN) = "")
  /\ (String.length (newPinBuffer s) <> 6 -> enter s PIN = s)
  /\ (String.length (newPinBuffer s) < 6 -> enter s PIN = s).
Proof.
  intros Hst.
  assert (Hno : String.length (newPinBuffer s) <> 6 -> enter s PIN = s).
  { intros Hlen. apply enter_noop. unfold noop_pair. rewrite Hst.
    now destruct (Nat.eqb_spec (String.length (newPinBuffer s)) 6). }
  split; [|split].
  - intros Hlen. rewrite (enter_newPin_commit s Hst Hlen). cbn. auto.
  - exact Hno.
  - intros Hlen. apply Hno. lia.
Qed.

(** C9: LOCK in [LOCKED_IDLE] changes nothing, however often it is
    pressed: the display and the lock status stay what they were. *)
Theorem C9_lock_idempotent (s : SafeImpl) (n : nat) :
  state s = LOCKED_IDLE ->
  run s (repeat LOCK n) = s
  /\ readDisplay (run s (repeat LOCK n)) = readDisplay s
  /\ isLocked (run s (repeat LOCK n)) = isLocked s
  /\ readDisplay (enter s LOCK) = readDisplay s
  /\ isLocked (enter s LOCK) = isLocked s.
Proof.
  intros Hst.
  assert (H1 : enter s LOCK = s)
    by (apply enter_noop; unfold noop_pair; now rewrite Hst).
  assert (Hn : run s (repeat LOCK n) = s).
  { induction n as [|n IH]; cbn; [reflexivity|]. now rewrite H1. }
  now rewrite Hn, H1.
Qed.

(** C10: a locked safe, in a reachable state or any other, is opened by
    one press only when it is in [ENTERING_PIN] and the press is a digit
    that completes six entered characters equal to the current PIN. *)
Theorem C10_unlock_only_by_correct_entry (s : SafeImpl) (b : Button) :
  isLocked s = true ->
  isLocked (enter s b) = false ->
  state s = ENTERING_PIN
  /\ isDigitButton b = true
  /\ String.length (enteredDigits s ++ buttonToDigit b) = 6
  /\ enteredDigits s ++ buttonToDigit b = currentPin s.
Proof.
  intros Hl Hl'. unfold isLocked in *.
  destruct (state s) eqn:Hst.
  - exfalso. revert Hl'. unfold_enter. rewrite Hst.
    destruct b; cbn; congruence.
  - exfalso. revert Hl'. unfold_enter. rewrite Hst.
    destruct b; cbn; congruence.
  - destruct (isDigitButton b) eqn:Hb.
    + destruct (Nat.eq_dec (String.length (enteredDigits s) + 1) 6)
        as [E|E].
      * rewrite (enter_digit_last s b Hst Hb E) in Hl'.
        destruct (String.eqb_spec (enteredDigits s ++ buttonToDigit b)
                    (currentPin s)) as [Heq|Hne];
          cbn in Hl'; [|congruence].
        repeat split; auto.
        now rewrite length_append, (buttonToDigit_length b Hb).
      * rewrite (enter_digit_partial s b Hst Hb E) in Hl'.
        cbn in Hl'. congruence.
    + exfalso. revert Hl'. unfold_enter. rewrite Hst, Hb.
      destruct (Button_eqb b KEY); cbn; congruence.
  - exfalso. revert Hl'. unfold_enter. rewrite Hst.
    destruct b; cbn; congruence.
  - exfalso. revert Hl'. unfold_enter. rewrite Hst.
    destruct (isDigitButton b);
      [destruct (6 <? _)%nat | destruct (_ && _)]; cbn; congruence.
Qed.

End Properties.

(** ** The theorems at the scenarios of the user stories *)

Section Scenarios.

Lemma reachable_entering5 : reachable entering5.
Proof. apply (reachable_run init), reachable_init. Qed.

Lemma reachable_wrong5 : reachable wrong5.
Proof. apply (reachable_run init), reachable_init. Qed.

Lemma reachable_opened : reachable opened.
Proof. apply (reachable_run init), reachable_init. Qed.

Lemma reachable_setting5 : reachable setting5.
Proof. apply (reachable_run opened), reachable_opened. Qed.

Lemma reachable_setting6 : reachable setting6.
Proof. apply (reachable_run opened), reachable_opened. Qed.

Lemma reachable_failed : reachable failed.
Proof. apply (reachable_run init), reachable_init. Qed.

(** Scenario A, last digit, and scenario D, last digit. *)
Lemma C2_sixth_digit_decides_scenario :
  (state (enter entering5 D6) = UNLOCKED
   /\ readDisplay (enter entering5 D6) = "OPEN  "
   /\ isLocked (enter entering5 D6) = false
   /\ enteredDigits (enter entering5 D6) = "")
  /\ (state (enter wrong5 D6) = LOCKED_IDLE
      /\ readDisplay (enter wrong5 D6) = "      "
      /\ isLocked (enter wrong5 D6) = true
      /\ enteredDigits (enter wrong5 D6) = "").
Proof.
  split.
  - refine (proj1 (C2_sixth_digit_decides entering5 D6 _ _ _ _) _);
      [exact reachable_entering5 | reflexivity ..].
  - refine (proj2 (C2_sixth_digit_decides wrong5 D6 _ _ _ _) _);
      [exact reachable_wrong5 | reflexivity .. | discriminate].
Defined.

Lemma C3_locked_flag_follows_state_scenario :
  (isLocked opened = false <->
   state opened = UNLOCKED \/ state opened = SETTING_NEW_PIN)
  /\ (isLocked opened = true <->
      state opened = LOCKED_IDLE \/ state opened = LOCKED_ERROR
      \/ state opened = ENTERING_PIN).
Proof.
  apply (C3_locked_flag_follows_state opened).
  exact reachable_opened.
Defined.

(** Scenario E: the sixth digit of 777333 is kept pending, and the PIN
    press after it commits. *)
Lemma C4_buffers_bounded_and_decided_scenario :
  (newPinBuffer (enter setting5 D3) = newPinBuffer setting5 ++ buttonToDigit D3
   /\ String.length (newPinBuffer (enter setting5 D3)) = 6
   /\ state (enter setting5 D3) = SETTING_NEW_PIN
   /\ currentPin (enter setting5 D3) = currentPin setting5
   /\ isLocked (enter setting5 D3) = isLocked setting5)
  /\ reachable setting6
  /\ String.length (newPinBuffer setting6) = 6
  /\ currentPin (enter setting6 PIN) = "777333"
  /\ newPinBuffer (enter setting6 PIN) = ""
  /\ state (enter setting6 PIN) = UNLOCKED.
Proof.
  split.
  - destruct (C4_buffers_bounded_and_decided setting5 D3 reachable_setting5)
      as (_ & _ & _ & _ & _ & H & _).
    apply H; reflexivity.
  - pose proof reachable_setting6 as Hr.
    split; [exact Hr | split; [reflexivity|]].
    destruct (C4_buffers_bounded_and_decided setting6 PIN Hr)
      as (_ & _ & _ & _ & _ & _ & H).
    apply H; reflexivity.
Defined.

(** Scenario E: 777333 opens after the change, 123456 does not; and
    setting 123456 again, 123456 opens. *)
Lemma C5_change_pin_round_trip_scenario :
  let C := [D7; D7; D7; D3; D3; D3] in
  let Old := [D1; D2; D3; D4; D5; D6] in
  isLocked (run (run opened ([PIN] ++ C ++ [PIN; LOCK])) (KEY :: C))
  = false
  /\ isLocked (run (run opened ([PIN] ++ C ++ [PIN; LOCK])) (KEY :: Old))
     = true
  /\ isLocked (run (run opened ([PIN] ++ Old ++ [PIN; LOCK])) (KEY :: Old))
     = false.
Proof.
  cbv zeta.
  assert (Hd : forall a b c d e f : Button,
             isDigit a -> isDigit b -> isDigit c -> isDigit d ->
             isDigit e -> isDigit f -> Forall isDigit [a; b; c; d; e; f])
    by (intros; repeat constructor; assumption).
  destruct (C5_change_pin_round_trip opened
              [D7; D7; D7; D3; D3; D3] [D1; D2; D3; D4; D5; D6]
              reachable_opened eq_refl
              (Hd D7 D7 D7 D3 D3 D3 eq_refl eq_refl eq_refl eq_refl
                  eq_refl eq_refl)
              eq_refl
              (Hd D1 D2 D3 D4 D5 D6 eq_refl eq_refl eq_refl eq_refl
                  eq_refl eq_refl)
              eq_refl) as [Hnew Hold].
  split; [exact Hnew | split; [apply Hold; discriminate|]].
  apply (C5_change_pin_round_trip opened
           [D1; D2; D3; D4; D5; D6] [D1; D2; D3; D4; D5; D6]
           reachable_opened eq_refl
           (Hd D1 D2 D3 D4 D5 D6 eq_refl eq_refl eq_refl eq_refl
               eq_refl eq_refl)
           eq_refl
           (Hd D1 D2 D3 D4 D5 D6 eq_refl eq_refl eq_refl eq_refl
               eq_refl eq_refl)
           eq_refl).
Defined.

Lemma C6_enter_total_no_ops_scenario :
  noop_pair init PIN = true /\ enter init PIN = init.
Proof.
  split; [reflexivity|].
  apply (proj2 (C6_enter_total_no_ops init PIN)). reflexivity.
Defined.

(** Scenario C: digit without KEY, further digits, then KEY. *)
Lemma C7_error_path_scenario :
  (state (enter init D1) = LOCKED_ERROR
   /\ readDisplay (enter init D1) = "ERROR ")
  /\ (state (enter failed D2) = LOCKED_ERROR
      /\ readDisplay (enter failed D2) = "ERROR ")
  /\ (state (enter failed KEY) = ENTERING_PIN
      /\ readDisplay (enter failed KEY) = "      "
      /\ isLocked (enter failed KEY) = true).
Proof.
  pose proof reachable_failed as Hr.
  split; [|split].
  - apply (proj1 (C7_error_path init D1 reachable_init)); reflexivity.
  - apply (proj1 (proj2 (C7_error_path failed D2 Hr)));
      [reflexivity | discriminate].
  - apply (proj2 (proj2 (C7_error_path failed KEY Hr))). reflexivity.
Defined.

Lemma C8_pin_commits_on_six_scenario :
  currentPin (enter setting6 PIN) = newPinBuffer setting6
  /\ readDisplay (enter setting6 PIN) = "CODE  "
  /\ state (enter setting6 PIN) = UNLOCKED
  /\ newPinBuffer (enter setting6 PIN) = "".
Proof.
  apply (proj1 (C8_pin_commits_on_six setting6 eq_refl)). reflexivity.
Defined.

Lemma C9_lock_idempotent_scenario :
  run init [LOCK; LOCK; LOCK] = init
  /\ readDisplay (run init [LOCK; LOCK; LOCK]) = readDisplay init
  /\ isLocked (run init [LOCK; LOCK; LOCK]) = isLocked init
  /\ readDisplay (enter init LOCK) = readDisplay init
  /\ isLocked (enter init LOCK) = isLocked init.
Proof.
  apply (C9_lock_idempotent init 3). reflexivity.
Defined.

Lemma C10_unlock_only_by_correct_entry_scenario :
  state entering5 = ENTERING_PIN
  /\ isDigitButton D6 = true
  /\ String.length (enteredDigits entering5 ++ buttonToDigit D6) = 6
  /\ enteredDigits entering5 ++ buttonToDigit D6 = currentPin entering5.
Proof.
  apply (C10_unlock_only_by_correct_entry entering5 D6); reflexivity.
Defined.

End Scenarios.

(** ** The display and the buffers follow the state *)

Section Display.

Lemma padEnd_empty : JS.padEnd "" 6 " " = "      ".
Proof. reflexivity. Qed.

Lemma Shown_init : Shown init.
Proof.
  constructor; unfold display_by_state; cbn; auto.
Qed.

Lemma Shown_LockedIdle (s : SafeImpl) (b : Button) :
  Shown s -> state s = LOCKED_IDLE -> Shown (handleLockedIdle s b).
Proof.
  intros [Hd He Hn] Hst. unfold display_by_state in Hd.
  rewrite Hst in *.
  assert (En : newPinBuffer s = "") by (apply Hn; discriminate).
  assert (Ee : enteredDigits s = "") by (apply He; discriminate).
  destruct b; constructor; unfold display_by_state; cbn;
    rewrite ?Hst; close_case.
Qed.

Lemma Shown_LockedError (s : SafeImpl) (b : Button) :
  Shown s -> state s = LOCKED_ERROR -> Shown (handleLockedError s b).
Proof.
  intros [Hd He Hn] Hst. unfold display_by_state in Hd.
  rewrite Hst in *.
  assert (En : newPinBuffer s = "") by (apply Hn; discriminate).
  assert (Ee : enteredDigits s = "") by (apply He; discriminate).
  destruct b; constructor; unfold display_by_state; cbn;
    rewrite ?Hst; close_case.
Qed.

Lemma Shown_Unlocked (s : SafeImpl) (b : Button) :
  Shown s -> state s = UNLOCKED -> Shown (handleUnlocked s b).
Proof.
  intros [Hd He Hn] Hst. unfold display_by_state in Hd.
  rewrite Hst in *.
  assert (En : newPinBuffer s = "") by (apply Hn; discriminate).
  assert (Ee : enteredDigits s = "") by (apply He; discriminate).
  destruct b; constructor; unfold display_by_state; cbn;
    rewrite ?Hst; close_case.
Qed.

Lemma Shown_EnteringPin (s : SafeImpl) (b : Button) :
  Shown s -> state s = ENTERING_PIN -> Shown (handleEnteringPin s b).
Proof.
  intros [Hd He Hn] Hst. unfold display_by_state in Hd.
  assert (Henter : handleEnteringPin s b = enter s b)
    by (unfold enter; now rewrite Hst).
  rewrite Hst in *.
  assert (En : newPinBuffer s = "") by (apply Hn; discriminate).
  destruct (isDigitButton b) eqn:Hb.
  - rewrite Henter.
    destruct (Nat.eq_dec (String.length (enteredDigits s) + 1) 6) as [E|E].
    + rewrite (enter_digit_last s b Hst Hb E).
      destruct (_ =? _)%string; constructor; unfold display_by_state;
        cbn; close_case.
    + rewrite (enter_digit_partial s b Hst Hb E).
      constructor; unfold display_by_state; cbn; rewrite ?Hst; close_case.
  - unfold handleEnteringPin. rewrite Hb.
    destruct (Button_eqb b KEY); constructor; unfold display_by_state;
      cbn; rewrite ?Hst; close_case.
Qed.

Lemma Shown_SettingNewPin (s : SafeImpl) (b : Button) :
  Inv s -> Shown s -> state s = SETTING_NEW_PIN ->
  Shown (handleSettingNewPin s b).
Proof.
  intros Hi [Hd He Hn] Hst. unfold display_by_state in Hd.
  assert (Henter : handleSettingNewPin s b = enter s b)
    by (unfold enter; now rewrite Hst).
  destruct (inv_newPin s Hi) as (ns & Hns & Hlen & Hty).
  assert (Hbuf : String.length (newPinBuffer s) = List.length ns)
    by (rewrite <- Hty; now apply typed_length).
  rewrite Hst in *.
  assert (Ee : enteredDigits s = "") by (apply He; discriminate).
  destruct (isDigitButton b) eqn:Hb.
  - rewrite Henter.
    destruct (Nat.eq_dec (List.length ns) 6) as [E|E].
    + rewrite (enter_newPin_overflow s b Hst Hb) by lia.
      constructor; unfold display_by_state; cbn; rewrite ?Hst; close_case.
      right. split; [lia|]. now exists b.
    + rewrite (enter_newPin_digit s b Hst Hb) by lia.
      constructor; unfold display_by_state; cbn; rewrite ?Hst; close_case.
  - unfold handleSettingNewPin. rewrite Hb.
    destruct (Button_eqb b PIN); cbn [andb];
      [destruct (Nat.eqb_spec (String.length (newPinBuffer s)) 6)|];
      constructor; unfold display_by_state; cbn; rewrite ?Hst; close_case.
Qed.

Lemma Shown_enter (s : SafeImpl) (b : Button) :
  Inv s -> Shown s -> Shown (enter s b).
Proof.
  intros Hi H. unfold enter. destruct (state s) eqn:Hst.
  - now apply Shown_LockedIdle.
  - now apply Shown_LockedError.
  - now apply Shown_EnteringPin.
  - now apply Shown_Unlocked.
  - now apply Shown_SettingNewPin.
Qed.

Lemma reachable_Shown (s : SafeImpl) : reachable s -> Shown s.
Proof.
  induction 1 as [|s b Hr IH]; [apply Shown_init|].
  apply Shown_enter; [now apply reachable_Inv | assumption].
Qed.

End Display.

(** ** Further single presses, and cutting a buffer to six *)

Section Presses.

Lemma substring_short (x : string) (n : nat) :
  String.length x <= n -> String.substring 0 n x = x.
Proof.
  revert n. induction x as [|c x IH]; intros [|n] H; cbn in *;
    try reflexivity; try lia.
  now rewrite IH by lia.
Qed.

(** The first six characters of a buffer of at most six and a suffix
    is the buffer alone once the buffer is full. *)
Lemma substring_full (a x : string) :
  String.length a = 6 -> JS.substring (a ++ x) 0 6 = a.
Proof.
  intros H. unfold JS.substring. cbn [Nat.min Nat.max Nat.sub].
  rewrite <- H. apply substring_append.
Qed.

(** KEY in any of the three locked states starts a fresh entry. *)
Lemma enter_KEY_locked (s : SafeImpl) :
  lockedOf (state s) = true ->
  enter s KEY
  = mkSafeImpl (locked s) "      " (currentPin s) ENTERING_PIN
               "" (newPinBuffer s).
Proof.
  unfold_enter. destruct (state s); cbn; intros H;
    try discriminate H; reflexivity.
Qed.

(** A button other than PIN leaves the stored PIN alone. *)
Lemma enter_keeps_pin (s : SafeImpl) (b : Button) :
  b <> PIN -> currentPin (enter s b) = currentPin s.
Proof.
  intros Hb. unfold_enter.
  destruct (state s); destruct b; try contradiction; cbn;
    repeat match goal with
      | |- context [if ?c then _ else _] => destruct c; cbn
      end; reflexivity.
Qed.

(** A button other than PIN in [SETTING_NEW_PIN]. *)
Lemma enter_setting_other (s : SafeImpl) (b : Button) :
  state s = SETTING_NEW_PIN -> String.length (newPinBuffer s) <= 6 ->
  b <> PIN ->
  state (enter s b) = SETTING_NEW_PIN
  /\ newPinBuffer (enter s b)
     = JS.substring (newPinBuffer s ++ buttonToDigit b) 0 6
  /\ locked (enter s b) = locked s.
Proof.
  intros Hst Hlen Hb.
  destruct (isDigitButton b) eqn:Hd.
  - destruct (Nat.eq_dec (String.length (newPinBuffer s)) 6) as [E|E].
    + rewrite (enter_newPin_overflow s b Hst Hd E). cbn.
      now rewrite (substring_full _ _ E).
    + rewrite (enter_newPin_digit s b Hst Hd) by lia. cbn.
      repeat split; auto. unfold JS.substring. cbn [Nat.min Nat.max Nat.sub].
      rewrite substring_short; [reflexivity|].
      rewrite length_append, (buttonToDigit_length b Hd). lia.
  - assert (E : enter s b = s).
    { apply enter_noop. unfold noop_pair. rewrite Hst.
      destruct b; try discriminate Hd; try reflexivity.
      now contradiction Hb. }
    assert (Eb : buttonToDigit b = "")
      by (destruct b; try discriminate Hd; reflexivity).
    rewrite E, Eb, append_empty_r. repeat split; auto.
    unfold JS.substring. cbn [Nat.min Nat.max Nat.sub].
    now rewrite substring_short.
Qed.

Lemma substring_length_le (x : string) (n : nat) :
  String.length (String.substring 0 n x) <= n.
Proof.
  revert n. induction x as [|c x IH]; intros [|n]; cbn; try lia.
  specialize (IH n). lia.
Qed.

(** Cutting to six twice, with more typed in between, is cutting once. *)
Lemma substring_substring (a y : string) :
  JS.substring (JS.substring a 0 6 ++ y) 0 6 = JS.substring (a ++ y) 0 6.
Proof.
  unfold JS.substring. cbn [Nat.min Nat.max Nat.sub].
  generalize 6. intros n. revert n.
  induction a as [|c a IH]; intros [|n]; cbn; try reflexivity.
  - now destruct y.
  - now rewrite IH.
Qed.

End Presses.

(** ** Behaviour of the safe beyond the stories *)

Section Behaviour.

(** X1: a digit button types exactly one character, the decimal digit of
    its enum number (['0'] for [D0] up to ['9'] for [D9]); LOCK, KEY and
    PIN type nothing. *)
Theorem buttonToDigit_char (b : Button) :
  buttonToDigit b
  = if isDigitButton b then String (digitChar b) "" else "".
Proof. destruct b; reflexivity. Qed.

(** X2: two sequences of digit buttons type the same string exactly when
    they are the same sequence, so comparing an entered string with the
    PIN compares the presses one by one, in order. *)
Theorem typed_eq_iff (xs ys : list Button) :
  Forall isDigit xs -> Forall isDigit ys ->
  (typed xs = typed ys <-> xs = ys).
Proof.
  intros Hx Hy. split; [now apply typed_inj | now intros ->].
Qed.

(** X3: in every reachable state the display is the one of its state:
    blank or "CLOSED" when idle, "ERROR " in the error state, the entered
    digits padded to six while a PIN is entered, "OPEN  " or "CODE  " when
    unlocked, and the new digits padded to six while a new PIN is set (or
    the six digits and one more after typing on a full buffer). *)
Theorem display_follows_state (s : SafeImpl) :
  reachable s ->
  match state s with
  | LOCKED_IDLE => readDisplay s = "      " \/ readDisplay s = "CLOSED"
  | LOCKED_ERROR => readDisplay s = "ERROR "
  | ENTERING_PIN => readDisplay s = JS.padEnd (enteredDigits s) 6 " "
  | UNLOCKED => readDisplay s = "OPEN  " \/ readDisplay s = "CODE  "
  | SETTING_NEW_PIN =>
      readDisplay s = JS.padEnd (newPinBuffer s) 6 " "
      \/ (String.length (newPinBuffer s) = 6
          /\ exists d, isDigitButton d = true
                       /\ readDisplay s = newPinBuffer s ++ buttonToDigit d)
  end.
Proof.
  intros Hr. exact (shown_display s (reachable_Shown s Hr)).
Qed.

(** X4: the display has exactly six characters in every reachable state
    outside [SETTING_NEW_PIN], and in [SETTING_NEW_PIN] as long as the
    new-PIN buffer holds fewer than six digits. *)
Theorem display_six_characters (s : SafeImpl) :
  reachable s ->
  state s <> SETTING_NEW_PIN \/ String.length (newPinBuffer s) < 6 ->
  String.length (readDisplay s) = 6.
Proof.
  intros Hr Hcase.
  pose proof (shown_display s (reachable_Shown s Hr)) as Hd.
  pose proof (reachable_Inv s Hr) as Hi.
  pose proof (inv_entered s Hi) as He.
  unfold display_by_state in Hd. unfold readDisplay.
  destruct (state s) eqn:Hst.
  - destruct Hd as [-> | ->]; reflexivity.
  - now rewrite Hd.
  - rewrite Hd, padEnd_length. lia.
  - destruct Hd as [-> | ->]; reflexivity.
  - destruct Hcase as [Hne | Hlt]; [now contradiction Hne|].
    destruct Hd as [-> | [Hsix _]]; [|lia].
    rewrite padEnd_length. lia.
Qed.

(** X5: each buffer is empty outside the state that fills it: no entered
    digit is kept when the safe is not in [ENTERING_PIN], and no digit of
    a new PIN when it is not in [SETTING_NEW_PIN]. *)
Theorem buffers_empty_outside_entry (s : SafeImpl) :
  reachable s ->
  (state s <> ENTERING_PIN -> enteredDigits s = "")
  /\ (state s <> SETTING_NEW_PIN -> newPinBuffer s = "").
Proof.
  intros Hr. destruct (reachable_Shown s Hr) as [_ He Hn]. now split.
Qed.

(** X6: in a reachable [LOCKED_ERROR] state every button but KEY leaves
    the whole object as it is, not only the display. *)
Theorem error_is_sticky (s : SafeImpl) (b : Button) :
  reachable s -> state s = LOCKED_ERROR -> b <> KEY -> enter s b = s.
Proof.
  intros Hr Hst Hb.
  pose proof (shown_display s (reachable_Shown s Hr)) as Hd.
  unfold display_by_state in Hd. rewrite Hst in Hd.
  unfold_enter. rewrite Hst.
  destruct b; try contradiction; cbn; rewrite <- Hd;
    destruct s; cbn in *; subst; reflexivity.
Qed.

(** X7: from every reachable locked state, whatever was typed before, KEY
    and six digits make one attempt: the digits of the current PIN open
    the safe with "OPEN  ", any other six digits leave it locked, idle and
    blank, with the PIN unchanged. *)
Theorem key_and_six_digits (s : SafeImpl) (ds : list Button) :
  reachable s -> isLocked s = true ->
  Forall isDigit ds -> List.length ds = 6 ->
  (typed ds = currentPin s ->
     state (run s (KEY :: ds)) = UNLOCKED
     /\ readDisplay (run s (KEY :: ds)) = "OPEN  "
     /\ isLocked (run s (KEY :: ds)) = false)
  /\ (typed ds <> currentPin s ->
        state (run s (KEY :: ds)) = LOCKED_IDLE
        /\ readDisplay (run s (KEY :: ds)) = "      "
        /\ isLocked (run s (KEY :: ds)) = true
        /\ currentPin (run s (KEY :: ds)) = currentPin s).
Proof.
  intros Hr Hl Hds Hlen.
  pose proof (inv_locked s (reachable_Inv s Hr)) as Hlo.
  unfold isLocked in Hl. rewrite Hl in Hlo. symmetry in Hlo.
  set (s' := set_state LOCKED_IDLE s).
  assert (E : run s (KEY :: ds) = run s' (KEY :: ds)).
  { cbn [run fold_left]. rewrite (enter_KEY_locked s Hlo).
    now rewrite (enter_KEY_locked s') by reflexivity. }
  rewrite E, (run_attempt s' ds) by (auto; reflexivity).
  subst s'. cbn [currentPin set_state locked newPinBuffer].
  destruct (String.eqb_spec (typed ds) (currentPin s)) as [Heq|Hne];
    split; intros H; try contradiction; cbn; auto.
Qed.

(** X8: after KEY and fewer than six digits from a reachable locked state
    the safe is still locked, is entering a PIN, and shows the digits
    typed since KEY, padded with spaces to six characters. *)
Theorem key_and_digits_shown (s : SafeImpl) (ds : list Button) :
  reachable s -> isLocked s = true ->
  Forall isDigit ds -> List.length ds < 6 ->
  state (run s (KEY :: ds)) = ENTERING_PIN
  /\ enteredDigits (run s (KEY :: ds)) = typed ds
  /\ readDisplay (run s (KEY :: ds)) = JS.padEnd (typed ds) 6 " "
  /\ String.length (readDisplay (run s (KEY :: ds))) = 6
  /\ isLocked (run s (KEY :: ds)) = true.
Proof.
  intros Hr Hl Hds Hlen.
  pose proof (inv_locked s (reachable_Inv s Hr)) as Hlo.
  unfold isLocked in Hl. rewrite Hl in Hlo. symmetry in Hlo.
  assert (Hr' : reachable (run s (KEY :: ds))) by now apply reachable_run.
  pose proof (shown_display _ (reachable_Shown _ Hr')) as Hd.
  unfold display_by_state in Hd. revert Hd.
  cbn [run fold_left]. rewrite (enter_KEY_locked s Hlo).
  set (s0 := mkSafeImpl _ _ _ _ _ _).
  destruct (run_entering ds s0) as (H1 & H2 & _ & H4 & _);
    [reflexivity | assumption | cbn; lia |].
  unfold run in *. rewrite H1. intros Hd.
  unfold readDisplay, isLocked. rewrite Hd, H2, H4. subst s0. cbn.
  repeat split; auto.
  rewrite padEnd_length, (typed_length ds Hds). lia.
Qed.

(** X9: presses that do not include the PIN button never change the
    stored PIN, from any state. *)
Theorem pin_kept_without_PIN_button (s : SafeImpl) (bs : list Button) :
  ~ In PIN bs -> currentPin (run s bs) = currentPin s.
Proof.
  revert s. induction bs as [|b bs IH]; intros s Hno; [reflexivity|].
  cbn [run fold_left]. fold (run (enter s b) bs).
  rewrite IH by (intros H; apply Hno; now right).
  apply enter_keeps_pin. intros ->. apply Hno. now left.
Qed.

(** X10: while the safe is locked no single press changes the stored PIN
    or the new-PIN buffer: the PIN can only be set on an open safe. *)
Theorem pin_kept_while_locked (s : SafeImpl) (b : Button) :
  reachable s -> isLocked s = true ->
  currentPin (enter s b) = currentPin s
  /\ newPinBuffer (enter s b) = newPinBuffer s.
Proof.
  intros Hr Hl.
  pose proof (inv_locked s (reachable_Inv s Hr)) as Hlo.
  unfold isLocked in Hl. rewrite Hl in Hlo.
  unfold_enter.
  destruct (state s); try discriminate Hlo; cbn;
    repeat match goal with
      | |- context [if ?c then _ else _] => destruct c; cbn
      end; split; reflexivity.
Qed.

(** X11: the state diagram in the comment on [SafeState] is exact for
    reachable states: a press changes the state tag to [t] if and only if
    the diagram has that change for that press. *)
Theorem state_changes_documented (s : SafeImpl) (b : Button) (t : SafeState) :
  reachable s ->
  (documented s b t <-> state (enter s b) = t /\ t <> state s).
Proof.
  intros Hr. pose proof (reachable_Inv s Hr) as Hi. split.
  - intros Hdoc. destruct Hdoc as [Hst | d Hst Hd | Hst | d Hst Hd Heq
                                  | d Hst Hd Hlen Hne | Hst | Hst
                                  | Hst Hlen].
    + unfold_enter. rewrite Hst. cbn. split; [reflexivity | discriminate].
    + unfold_enter. rewrite Hst.
      destruct d; try discriminate Hd; cbn;
        (split; [reflexivity | discriminate]).
    + unfold_enter. rewrite Hst. cbn. split; [reflexivity | discriminate].
    + assert (Hlen : String.length (enteredDigits s) + 1 = 6).
      { destruct (inv_pin s Hi) as (ps & Hps & Hl & Hp).
        assert (H6 : String.length (enteredDigits s ++ buttonToDigit d) = 6)
          by (rewrite Heq, <- Hp, (typed_length ps Hps); exact Hl).
        now rewrite length_append, (buttonToDigit_length d Hd) in H6. }
      rewrite (enter_digit_last s d Hst Hd Hlen), Heq, String.eqb_refl, Hst.
      cbn. split; [reflexivity | discriminate].
    + rewrite length_append, (buttonToDigit_length d Hd) in Hlen.
      rewrite (enter_digit_last s d Hst Hd Hlen), Hst.
      destruct (String.eqb_spec (enteredDigits s ++ buttonToDigit d)
                  (currentPin s)); [contradiction|].
      cbn. split; [reflexivity | discriminate].
    + unfold_enter. rewrite Hst. cbn. split; [reflexivity | discriminate].
    + unfold_enter. rewrite Hst. cbn. split; [reflexivity | discriminate].
    + rewrite (enter_newPin_commit s Hst Hlen), Hst. cbn.
      split; [reflexivity | discriminate].
  - intros [Ht Hne]. subst t. destruct (state s) eqn:Hst.
    + revert Hne. unfold_enter. rewrite ?Hst.
      destruct b; cbn; intros Hne; try (now contradiction Hne);
        try (now apply doc_idle_key); now apply doc_idle_digit.
    + revert Hne. unfold_enter. rewrite ?Hst.
      destruct b; cbn; intros Hne; try (now contradiction Hne).
      now apply doc_error_key.
    + destruct (isDigitButton b) eqn:Hb.
      * destruct (Nat.eq_dec (String.length (enteredDigits s) + 1) 6)
          as [E|E].
        -- revert Hne. rewrite (enter_digit_last s b Hst Hb E).
           destruct (String.eqb_spec (enteredDigits s ++ buttonToDigit b)
                       (currentPin s)) as [Heq|Hdiff]; cbn; intros _.
           ++ now apply doc_correct_pin.
           ++ apply doc_wrong_pin; auto.
              now rewrite length_append, (buttonToDigit_length b Hb).
        -- revert Hne. rewrite (enter_digit_partial s b Hst Hb E). cbn.
           rewrite ?Hst. intros Hne. now contradiction Hne.
      * revert Hne. unfold_enter. rewrite ?Hst, ?Hb.
        destruct (Button_eqb b KEY); cbn; rewrite ?Hst; intros Hne;
          now contradiction Hne.
    + revert Hne. unfold_enter. rewrite ?Hst.
      destruct b; cbn; intros Hne; try (now contradiction Hne);
        try (now apply doc_lock); now apply doc_pin.
    + revert Hne. unfold_enter. rewrite ?Hst.
      destruct (isDigitButton b) eqn:Hb.
      * destruct (6 <? _)%nat; cbn; rewrite ?Hst; intros Hne;
          now contradiction Hne.
      * destruct (Button_eqb_spec b PIN) as [->|Hb'];
          destruct (Nat.eqb_spec (String.length (newPinBuffer s)) 6);
          cbn; rewrite ?Hst; intros Hne; try (now contradiction Hne).
        now apply doc_commit.
Qed.

(** X12: while a new PIN is set, presses that do not include the PIN
    button cannot leave [SETTING_NEW_PIN], lock the safe or change the
    stored PIN; LOCK and KEY are ignored and the buffer holds the first
    six of the digits typed, later digits being dropped. *)
Theorem setting_without_PIN_button (s : SafeImpl) (bs : list Button) :
  state s = SETTING_NEW_PIN ->
  String.length (newPinBuffer s) <= 6 ->
  ~ In PIN bs ->
  state (run s bs) = SETTING_NEW_PIN
  /\ newPinBuffer (run s bs)
     = JS.substring (newPinBuffer s ++ typed bs) 0 6
  /\ isLocked (run s bs) = isLocked s
  /\ currentPin (run s bs) = currentPin s.
Proof.
  unfold isLocked. revert s.
  induction bs as [|b bs IH]; intros s Hst Hlen Hno.
  - cbn. rewrite append_empty_r. repeat split; auto.
    unfold JS.substring. cbn [Nat.min Nat.max Nat.sub].
    now rewrite substring_short.
  - assert (Hb : b <> PIN) by (intros ->; apply Hno; now left).
    assert (Hno' : ~ In PIN bs) by (intros H; apply Hno; now right).
    destruct (enter_setting_other s b Hst Hlen Hb) as (H1 & H2 & H3).
    assert (Hlen' : String.length (newPinBuffer (enter s b)) <= 6).
    { rewrite H2. unfold JS.substring. cbn [Nat.min Nat.max Nat.sub].
      apply substring_length_le. }
    destruct (IH (enter s b) H1 Hlen' Hno') as (I1 & I2 & I3 & I4).
    cbn [run fold_left typed fold_right] in *.
    fold (typed bs). unfold run in *.
    rewrite I1, I2, I3, I4, H2, H3, (enter_keeps_pin s b Hb).
    repeat split; auto.
    now rewrite substring_substring, append_assoc.
Qed.

(** X13: locking and unlocking is a round trip: from an [UNLOCKED] state,
    LOCK, KEY and the six digits of the stored PIN lead back to
    [UNLOCKED] with the same PIN, showing "OPEN  ", and the safe was
    locked in between. *)
Theorem lock_then_unlock (s : SafeImpl) (ds : list Button) :
  state s = UNLOCKED ->
  Forall isDigit ds -> List.length ds = 6 -> typed ds = currentPin s ->
  isLocked (enter s LOCK) = true
  /\ readDisplay (enter s LOCK) = "CLOSED"
  /\ state (run s (LOCK :: KEY :: ds)) = UNLOCKED
  /\ isLocked (run s (LOCK :: KEY :: ds)) = false
  /\ readDisplay (run s (LOCK :: KEY :: ds)) = "OPEN  "
  /\ currentPin (run s (LOCK :: KEY :: ds)) = currentPin s.
Proof.
  intros Hst Hds Hlen Hty.
  assert (E : enter s LOCK
              = mkSafeImpl true "CLOSED" (currentPin s) LOCKED_IDLE
                  (enteredDigits s) (newPinBuffer s))
    by (unfold_enter; now rewrite Hst).
  change (run s (LOCK :: KEY :: ds)) with (run (enter s LOCK) (KEY :: ds)).
  rewrite E, run_attempt by auto. cbn [currentPin].
  rewrite Hty, String.eqb_refl. cbn. repeat split.
Qed.

(** X14: no reachable state is a dead end: the stored PIN is always six
    digits that the buttons can type, and from a locked state KEY and
    those six digits open the safe. *)
Theorem always_openable (s : SafeImpl) :
  reachable s ->
  exists ds,
    Forall isDigit ds /\ List.length ds = 6 /\ typed ds = currentPin s
    /\ (isLocked s = true -> isLocked (run s (KEY :: ds)) = false).
Proof.
  intros Hr.
  pose proof (reachable_Inv s Hr) as Hi.
  destruct (inv_pin s Hi) as (ps & Hps & Hlen & Hp).
  exists ps. repeat split; auto. intros Hl.
  pose proof (inv_locked s Hi) as Hlo.
  unfold isLocked in Hl. rewrite Hl in Hlo. symmetry in Hlo.
  set (s' := set_state LOCKED_IDLE s).
  assert (E : run s (KEY :: ps) = run s' (KEY :: ps)).
  { cbn [run fold_left]. rewrite (enter_KEY_locked s Hlo).
    now rewrite (enter_KEY_locked s') by reflexivity. }
  rewrite E, (run_attempt s' ps) by (auto; reflexivity).
  subst s'. cbn [currentPin set_state]. rewrite Hp, String.eqb_refl.
  reflexivity.
Qed.

End Behaviour.

(** ** The behaviour theorems at states of the user stories *)

Section BehaviourScenarios.

Lemma typed_eq_iff_scenario :
  typed [D1; D2] = typed [D2; D1] <-> [D1; D2] = [D2; D1].
Proof. apply (typed_eq_iff [D1; D2] [D2; D1]); repeat constructor. Defined.

Lemma display_follows_state_scenario : readDisplay failed = "ERROR ".
Proof. exact (display_follows_state failed reachable_failed). Defined.

Lemma display_six_characters_scenario :
  String.length (readDisplay entering5) = 6.
Proof.
  apply (display_six_characters entering5 reachable_entering5).
  left. discriminate.
Defined.

Lemma buffers_empty_outside_entry_scenario :
  enteredDigits opened = "" /\ newPinBuffer opened = "".
Proof.
  destruct (buffers_empty_outside_entry opened reachable_opened)
    as [He Hn].
  split; [apply He | apply Hn]; discriminate.
Defined.

(** Story 3: a second digit in the error state. *)
Lemma error_is_sticky_scenario : enter failed D2 = failed.
Proof.
  apply (error_is_sticky failed D2 reachable_failed);
    [reflexivity | discriminate].
Defined.

(** Story 3 continued: KEY and the factory PIN after the error. *)
Lemma key_and_six_digits_scenario :
  state (run failed [KEY; D1; D2; D3; D4; D5; D6]) = UNLOCKED
  /\ readDisplay (run failed [KEY; D1; D2; D3; D4; D5; D6]) = "OPEN  "
  /\ isLocked (run failed [KEY; D1; D2; D3; D4; D5; D6]) = false.
Proof.
  refine (proj1 (key_and_six_digits failed [D1; D2; D3; D4; D5; D6]
                   reachable_failed _ _ _) _);
    [reflexivity | repeat constructor | reflexivity | reflexivity].
Defined.

Lemma key_and_digits_shown_scenario :
  state (run failed [KEY; D1; D2]) = ENTERING_PIN
  /\ enteredDigits (run failed [KEY; D1; D2]) = typed [D1; D2]
  /\ readDisplay (run failed [KEY; D1; D2])
     = JS.padEnd (typed [D1; D2]) 6 " "
  /\ String.length (readDisplay (run failed [KEY; D1; D2])) = 6
  /\ isLocked (run failed [KEY; D1; D2]) = true.
Proof.
  apply (key_and_digits_shown failed [D1; D2] reachable_failed);
    [reflexivity | repeat constructor | cbn; lia].
Defined.

Lemma pin_kept_without_PIN_button_scenario :
  currentPin (run opened [LOCK; KEY; D7; D7]) = currentPin opened.
Proof.
  apply (pin_kept_without_PIN_button opened [LOCK; KEY; D7; D7]).
  cbn. intros H. repeat (destruct H as [H|H]; [discriminate H|]). exact H.
Defined.

Lemma pin_kept_while_locked_scenario :
  currentPin (enter entering5 PIN) = currentPin entering5
  /\ newPinBuffer (enter entering5 PIN) = newPinBuffer entering5.
Proof.
  apply (pin_kept_while_locked entering5 PIN reachable_entering5).
  reflexivity.
Defined.

Lemma state_changes_documented_scenario :
  documented opened LOCK LOCKED_IDLE
  <-> state (enter opened LOCK) = LOCKED_IDLE
      /\ LOCKED_IDLE <> state opened.
Proof.
  exact (state_changes_documented opened LOCK LOCKED_IDLE reachable_opened).
Defined.

(** Story 5 with a seventh digit, LOCK and KEY before the second PIN. *)
Lemma setting_without_PIN_button_scenario :
  state (run setting6 [D9; LOCK; KEY]) = SETTING_NEW_PIN
  /\ newPinBuffer (run setting6 [D9; LOCK; KEY])
     = JS.substring (newPinBuffer setting6 ++ typed [D9; LOCK; KEY]) 0 6
  /\ isLocked (run setting6 [D9; LOCK; KEY]) = isLocked setting6
  /\ currentPin (run setting6 [D9; LOCK; KEY]) = currentPin setting6.
Proof.
  apply (setting_without_PIN_button setting6 [D9; LOCK; KEY]).
  - reflexivity.
  - cbn. lia.
  - cbn. intros H.
    repeat (destruct H as [H|H]; [discriminate H|]). exact H.
Defined.

(** Stories 2 and 1 in a row. *)
Lemma lock_then_unlock_scenario :
  isLocked (enter opened LOCK) = true
  /\ readDisplay (enter opened LOCK) = "CLOSED"
  /\ state (run opened [LOCK; KEY; D1; D2; D3; D4; D5; D6]) = UNLOCKED
  /\ isLocked (run opened [LOCK; KEY; D1; D2; D3; D4; D5; D6]) = false
  /\ readDisplay (run opened [LOCK; KEY; D1; D2; D3; D4; D5; D6])
     = "OPEN  "
  /\ currentPin (run opened [LOCK; KEY; D1; D2; D3; D4; D5; D6])
     = currentPin opened.
Proof.
  apply (lock_then_unlock opened [D1; D2; D3; D4; D5; D6]);
    [reflexivity | repeat constructor | reflexivity | reflexivity].
Defined.

Lemma always_openable_scenario :
  exists ds,
    Forall isDigit ds /\ List.length ds = 6
    /\ typed ds = currentPin failed
    /\ (isLocked failed = true -> isLocked (run failed (KEY :: ds)) = false).
Proof. exact (always_openable failed reachable_failed). Defined.

End BehaviourScenarios.
